(** * Feature toggles (Feature/feature.py): a shallow embedding

    The Python class [Feature] is a mutable object whose methods read and
    write its attributes, call the module logger and, in [apply], call a
    user-supplied transformer under [try ... except Exception].  The
    embedding threads a heap (the object [self] and the trace of effects)
    through a small state-and-exception monad, so that every method reads
    like its Python body. *)

From Stdlib Require Import ZArith Ascii String.
From stdpp Require Import base gmap sets list strings.

Open Scope string_scope.
Open Scope list_scope.

(** ** Exceptions and outcomes *)

(** A raised Python exception.  [except Exception] only matches instances
    of [Exception]; [SystemExit], [KeyboardInterrupt] and [GeneratorExit]
    derive from [BaseException] directly and are not matched by it. *)
Inductive exn : Type :=
  | ExceptionInstance (cls msg : string)
  | BaseExceptionInstance (cls msg : string).

(** [isinstance(e, Exception)] *)
Definition isinstance_Exception (e : exn) : bool :=
  match e with
  | ExceptionInstance _ _ => true
  | BaseExceptionInstance _ _ => false
  end.

(** What evaluating a call gives: a returned value or a raised exception. *)
Inductive outcome (A : Type) : Type :=
  | Return (a : A)
  | Raise (e : exn).
Arguments Return {A} a.
Arguments Raise {A} e.

(** ** Logging *)

Inductive level : Type := DEBUG | INFO.

(** Arguments interpolated into a log format: [self.name] is a string,
    [missing] is a set of strings. *)
Inductive logarg : Type :=
  | ArgStr (s : string)
  | ArgSet (s : gset string).

Section FeatureModel.

Context {Data : Type}.

(** ** The dataclass *)

Record Feature : Type := mkFeature {
  name : string;
  enabled : bool;
  dependencies : list string;
  transformer : option (Data → outcome Data);
  description : string
}.

(** Observable effects, in program order: calls to the logger
    ([logger.exception] records the exception being handled, at level
    ERROR) and calls to the transformer. *)
Inductive event : Type :=
  | Logged (lvl : level) (fmt : string) (args : list logarg)
  | LoggedException (fmt : string) (args : list logarg) (e : exn)
  | Invoked (data : Data).

Record heap : Type := mkHeap {
  self : Feature;
  trace : list event
}.

(** ** The monad of method bodies *)

Definition M (A : Type) : Type := heap → outcome A * heap.

#[export] Instance M_ret : MRet M := λ A a h, (Return a, h).

#[export] Instance M_bind : MBind M := λ A B k m h,
  match m h with
  | (Return a, h') => k a h'
  | (Raise e, h') => (Raise e, h')
  end.

(** [self.<field>] *)
Definition attr {A : Type} (field : Feature → A) : M A :=
  λ h, (Return (field (self h)), h).

(** The object after the assignment [f.enabled = b]. *)
Definition with_enabled (f : Feature) (b : bool) : Feature :=
  {| name := name f;
     enabled := b;
     dependencies := dependencies f;
     transformer := transformer f;
     description := description f |}.

(** [self.enabled = b] *)
Definition set_enabled (b : bool) : M unit :=
  λ h, (Return (), {| self := with_enabled (self h) b; trace := trace h |}).

Definition emit (ev : event) : M unit :=
  λ h, (Return (), {| self := self h; trace := trace h ++ [ev] |}).

Definition logger_info (fmt : string) (args : list logarg) : M unit :=
  emit (Logged INFO fmt args).

Definition logger_debug (fmt : string) (args : list logarg) : M unit :=
  emit (Logged DEBUG fmt args).

(** An exception travelling up the stack. *)
Definition raise {A : Type} (e : exn) : M A := λ h, (Raise e, h).

(** [callee(data)]: [None] is not callable; a function is run on [data]
    and either returns a value or raises.  A transformer is taken as this
    function of its argument: it does not reach the feature that holds it. *)
Definition call (callee : option (Data → outcome Data)) (data : Data) : M Data :=
  match callee with
  | None => raise (ExceptionInstance "TypeError" "'NoneType' object is not callable")
  | Some t => emit (Invoked data) ;; (λ h, (t data, h))
  end.

(** [try: body  except Exception: handler] *)
Definition try_except_Exception {A : Type} (body : M A) (handler : exn → M A) : M A :=
  λ h,
    match body h with
    | (Return a, h') => (Return a, h')
    | (Raise e, h') =>
        if isinstance_Exception e then handler e h' else (Raise e, h')
    end.

(** [logger.exception(fmt, *args)] inside a handler for [e] *)
Definition logger_exception (e : exn) (fmt : string) (args : list logarg) : M unit :=
  emit (LoggedException fmt args e).

(** ** The methods *)

Definition enable : M unit :=
  set_enabled true ;;
  nm ← attr name;
  logger_info "Feature '%s' enabled" [ArgStr nm].

Definition disable : M unit :=
  set_enabled false ;;
  nm ← attr name;
  logger_info "Feature '%s' disabled" [ArgStr nm].

(** Truth value of a set: non-empty. *)
Definition truthy (s : gset string) : bool := negb (bool_decide (s = ∅)).

Definition is_available (active_features : gset string) : M bool :=
  deps ← attr dependencies;
  let missing : gset string := list_to_set deps ∖ active_features in
  if truthy missing then
    nm ← attr name;
    logger_debug "Feature '%s' missing dependencies: %s" [ArgStr nm; ArgSet missing] ;;
    mret false
  else
    mret true.

Definition apply (data : Data) (active_features : option (gset string)) : M Data :=
  en ← attr enabled;
  if negb en then
    nm ← attr name;
    logger_debug "Feature '%s' is disabled; returning data unchanged" [ArgStr nm] ;;
    mret data
  else
    let active_features : gset string :=
      match active_features with
      | None => ∅
      | Some s => s
      end in
    avail ← is_available active_features;
    if negb avail then
      nm ← attr name;
      logger_debug
        "Feature '%s' is unavailable due to dependencies; returning data unchanged"
        [ArgStr nm] ;;
      mret data
    else
      t ← attr transformer;
      match t with
      | None =>
          nm ← attr name;
          logger_debug "Feature '%s' has no transformer; returning data unchanged"
            [ArgStr nm] ;;
          mret data
      | Some _ =>
          try_except_Exception
            (callee ← attr transformer;
             result ← call callee data;
             nm ← attr name;
             logger_info "Feature '%s' applied successfully" [ArgStr nm] ;;
             mret result)
            (λ e,
               nm ← attr name;
               logger_exception e
                 "Feature '%s' transformer raised an exception; returning original data"
                 [ArgStr nm] ;;
               mret data)
      end.

(** [n] calls of a method one after the other. *)
Fixpoint repeat_call (n : nat) (m : M unit) : M unit :=
  match n with
  | O => mret ()
  | S n' => m ;; repeat_call n' m
  end.

End FeatureModel.

Arguments Feature Data : clear implicits.
Arguments event Data : clear implicits.
Arguments heap Data : clear implicits.

(** ** Python values and the example of the module's [__main__] block *)

(** The part of Python's [Any] the examples use. *)
Inductive value : Type :=
  | VNone
  | VInt (n : Z)
  | VStr (s : string).

(** [str.upper] on ASCII text: the letters a-z move to A-Z, every other
    character is kept. *)
Definition upper_ascii (c : ascii) : ascii :=
  let n := nat_of_ascii c in
  if Nat.leb 97 n && Nat.leb n 122 then ascii_of_nat (n - 32) else c.

Fixpoint upper (s : string) : string :=
  match s with
  | EmptyString => EmptyString
  | String c s' => String (upper_ascii c) (upper s')
  end.

Definition to_upper (s : value) : outcome value :=
  match s with
  | VStr t => Return (VStr (upper t))
  | _ => Return s
  end.

(** [Feature(name="uppercase", description=..., transformer=to_upper)]:
    the dataclass defaults give [enabled = False], [dependencies = []]. *)
Definition upper_feature : Feature value :=
  {| name := "uppercase";
     enabled := false;
     dependencies := [];
     transformer := Some to_upper;
     description := "Uppercase string inputs" |}.

(** A heap holding a freshly constructed object. *)
Definition fresh {Data : Type} (f : Feature Data) : heap Data :=
  {| self := f; trace := [] |}.

(** The transformer calls recorded in a trace. *)
Fixpoint invocations {Data : Type} (tr : list (event Data)) : list Data :=
  match tr with
  | [] => []
  | Invoked d :: tr' => d :: invocations tr'
  | _ :: tr' => invocations tr'
  end.

(** [f] with its [dependencies] list replaced. *)
Definition with_dependencies {Data : Type} (f : Feature Data) (deps : list string)
  : Feature Data :=
  {| name := name f;
     enabled := enabled f;
     dependencies := deps;
     transformer := transformer f;
     description := description f |}.

(** A transformer that always raises an [Exception] subclass. *)
Definition always_fails (_ : value) : outcome value :=
  Raise (ExceptionInstance "ValueError" "boom").

(** A transformer that calls [sys.exit(1)]. *)
Definition exits (_ : value) : outcome value :=
  Raise (BaseExceptionInstance "SystemExit" "1").

(** An enabled feature requiring ["uppercase"], around transformer [t]. *)
Definition requiring_uppercase (t : option (value → outcome value)) : Feature value :=
  {| name := "dependent";
     enabled := true;
     dependencies := ["uppercase"];
     transformer := t;
     description := "" |}.

(** ** Callers of a feature *)

(** The exceptions handed to [logger.exception] in a trace. *)
Fixpoint exceptions_logged {Data : Type} (tr : list (event Data)) : list exn :=
  match tr with
  | [] => []
  | LoggedException _ _ e :: tr' => e :: exceptions_logged tr'
  | _ :: tr' => exceptions_logged tr'
  end.


(** A caller switching the feature on ([true]: [enable()]) and off
    ([false]: [disable()]), call after call. *)
Fixpoint toggles {Data : Type} (calls : list bool) : M (Data:=Data) unit :=
  match calls with
  | [] => mret ()
  | b :: calls' => (if b then enable else disable) ;; toggles calls'
  end.

(** * The command-line script (pyscripts/myscript.py) *)

Module Myscript.

(** What the script does to the outside: the texts handed to [print], one
    per call, and the records handed to the root logger. *)
Inductive log_record : Type :=
  | LogError (fmt : string) (arg : string)
  | LogException (fmt : string) (e : exn).

Record world : Type := mkWorld {
  stdout : list string;
  log : list log_record
}.

Definition IO (A : Type) : Type := world → outcome A * world.

#[export] Instance IO_ret : MRet IO := λ A a w, (Return a, w).

#[export] Instance IO_bind : MBind IO := λ A B k m w,
  match m w with
  | (Return a, w') => k a w'
  | (Raise e, w') => (Raise e, w')
  end.

Definition print (text : string) : IO unit :=
  λ w, (Return (), {| stdout := stdout w ++ [text]; log := log w |}).

Definition logging_error (fmt : string) (arg : string) : IO unit :=
  λ w, (Return (), {| stdout := stdout w; log := log w ++ [LogError fmt arg] |}).

Definition logging_exception (fmt : string) (e : exn) : IO unit :=
  λ w, (Return (), {| stdout := stdout w; log := log w ++ [LogException fmt e] |}).

Definition raise {A : Type} (e : exn) : IO A := λ w, (Raise e, w).

(** [try: body  except Exception as e: handler] *)
Definition try_except_Exception {A : Type} (body : IO A) (handler : exn → IO A) : IO A :=
  λ w,
    match body w with
    | (Return a, w') => (Return a, w')
    | (Raise e, w') =>
        if isinstance_Exception e then handler e w' else (Raise e, w')
    end.

(** [for _ in range(n): body], for the length [n] of the range. *)
Fixpoint for_range (n : nat) (body : IO unit) : IO unit :=
  match n with
  | O => mret ()
  | S n' => body ;; for_range n' body
  end.

(** [greet(name, repeat=1)]; [range] of a number below 1 is empty, and
    [max(1, repeat)] never is below 1. *)
Definition greet (name : string) (repeat : option Z) : IO unit :=
  let repeat := default 1%Z repeat in
  for_range (Z.to_nat (Z.max 1 repeat)) (print ("Hello, " +:+ name +:+ "!")).

(** [line.rstrip("\n")]: the line without the newline characters at its end. *)
Fixpoint rstrip_newline (line : string) : string :=
  match line with
  | EmptyString => EmptyString
  | String c rest =>
      match rstrip_newline rest with
      | EmptyString => if Ascii.eqb c "010" then EmptyString else String c EmptyString
      | kept => String c kept
      end
  end.

(** What opening a file and iterating over it does: the iterator yields
    [lines], the lines that do come out of it, one by one, and then stops,
    or raises [failure].  (A directory: no line, then [IsADirectoryError]
    from [open].  Text is decoded a chunk at a time, so a byte that is not
    UTF-8 raises [UnicodeDecodeError] before any line of its chunk comes
    out: [lines] then holds the lines of the chunks before it only.) *)
Record file : Type := mkFile {
  lines : list string;
  failure : option exn
}.

(** [for i, line in enumerate(f): if i >= max_lines: break; print(...)]:
    [enumerate] takes the next line, or meets the failure, before the
    index is compared. *)
Fixpoint read_lines (i max_lines : Z) (rest : list string) (failure : option exn)
  : IO unit :=
  match rest with
  | [] =>
      match failure with
      | Some e => raise e
      | None => mret ()
      end
  | line :: rest' =>
      if (i >=? max_lines)%Z then mret ()
      else print (rstrip_newline line) ;; read_lines (i + 1) max_lines rest' failure
  end.

(** What [Path(path).exists()] finds at a path: the call raises (an
    [OSError] for a name that is too long or a directory that may not be
    searched), or answers [False], or answers [True], and [open] then gives
    a file. *)
Inductive path_status : Type :=
  | ExistsRaises (e : exn)
  | Missing
  | Present (f : file).

(** [read_file(path, max_lines=10)]; [p.exists()] is called before the
    [try], so what it raises leaves the function. *)
Definition read_file (fs : string → path_status) (path : string) (max_lines : option Z)
  : IO unit :=
  let max_lines := default 10%Z max_lines in
  match fs path with
  | ExistsRaises e => raise e
  | Missing => logging_error "File not found: %s" path
  | Present f =>
      try_except_Exception
        (read_lines 0 max_lines (lines f) (failure f))
        (λ e, logging_exception "Failed reading file: %s" e)
  end.

(** A directory holding the one file [notes.txt], of three lines, and the
    directory [logs]. *)
Definition notes_and_logs (path : string) : path_status :=
  if String.eqb path "notes.txt" then
    Present {| lines := ["one" +:+ String "010" EmptyString;
                         "two" +:+ String "010" EmptyString;
                         "three"];
               failure := None |}
  else if String.eqb path "logs" then
    Present {| lines := [];
               failure := Some (ExceptionInstance "IsADirectoryError"
                                  "[Errno 21] Is a directory: 'logs'") |}
  else Missing.

(** [line.endswith("\n")] *)
Fixpoint ends_with_newline (line : string) : bool :=
  match line with
  | EmptyString => false
  | String c EmptyString => Ascii.eqb c "010"
  | String _ rest => ends_with_newline rest
  end.

(** ["\n" * n] *)
Fixpoint newlines (n : nat) : string :=
  match n with
  | O => EmptyString
  | S n' => String "010" (newlines n')
  end.

End Myscript.

(** * Transformers that reach the feature holding them *)

(** [self.transformer] can be any Python callable, and so one that closes
    over the feature it is stored in and assigns its fields.  Here the
    stored callables are values of a type [Code], and [run c data f] is the
    call [c(data)] made while the feature is [f]: what it returns or
    raises, and the feature as the call leaves it.  The methods are the
    same bodies over this object. *)
Module Closures.

Section ClosureModel.

Context {Data Code : Type}.

Record Feature : Type := mkFeature {
  name : string;
  enabled : bool;
  dependencies : list string;
  transformer : option Code;
  description : string
}.

Record heap : Type := mkHeap {
  self : Feature;
  trace : list (event Data)
}.

Variable run : Code → Data → Feature → outcome Data * Feature.

Definition M (A : Type) : Type := heap → outcome A * heap.

#[export] Instance M_ret : MRet M := λ A a h, (Return a, h).

#[export] Instance M_bind : MBind M := λ A B k m h,
  match m h with
  | (Return a, h') => k a h'
  | (Raise e, h') => (Raise e, h')
  end.

(** [self.<field>] *)
Definition attr {A : Type} (field : Feature → A) : M A :=
  λ h, (Return (field (self h)), h).

(** The object after the assignment [f.enabled = b]. *)
Definition with_enabled (f : Feature) (b : bool) : Feature :=
  {| name := name f;
     enabled := b;
     dependencies := dependencies f;
     transformer := transformer f;
     description := description f |}.

(** [self.enabled = b] *)
Definition set_enabled (b : bool) : M unit :=
  λ h, (Return (), {| self := with_enabled (self h) b; trace := trace h |}).

Definition emit (ev : event Data) : M unit :=
  λ h, (Return (), {| self := self h; trace := trace h ++ [ev] |}).

Definition logger_info (fmt : string) (args : list logarg) : M unit :=
  emit (Logged INFO fmt args).

Definition logger_debug (fmt : string) (args : list logarg) : M unit :=
  emit (Logged DEBUG fmt args).

Definition logger_exception (e : exn) (fmt : string) (args : list logarg) : M unit :=
  emit (LoggedException fmt args e).

Definition raise {A : Type} (e : exn) : M A := λ h, (Raise e, h).

(** [callee(data)]: the callable runs on the object as it is now, and the
    object is afterwards what the call made of it. *)
Definition call (callee : option Code) (data : Data) : M Data :=
  match callee with
  | None => raise (ExceptionInstance "TypeError" "'NoneType' object is not callable")
  | Some c =>
      emit (Invoked data) ;;
      ((λ h, (fst (run c data (self h)),
              {| self := snd (run c data (self h)); trace := trace h |})) : M Data)
  end.

(** [try: body  except Exception: handler] *)
Definition try_except_Exception {A : Type} (body : M A) (handler : exn → M A) : M A :=
  λ h,
    match body h with
    | (Return a, h') => (Return a, h')
    | (Raise e, h') =>
        if isinstance_Exception e then handler e h' else (Raise e, h')
    end.

Definition enable : M unit :=
  set_enabled true ;;
  nm ← attr name;
  logger_info "Feature '%s' enabled" [ArgStr nm].

Definition disable : M unit :=
  set_enabled false ;;
  nm ← attr name;
  logger_info "Feature '%s' disabled" [ArgStr nm].

Definition is_available (active_features : gset string) : M bool :=
  deps ← attr dependencies;
  let missing : gset string := list_to_set deps ∖ active_features in
  if truthy missing then
    nm ← attr name;
    logger_debug "Feature '%s' missing dependencies: %s" [ArgStr nm; ArgSet missing] ;;
    mret false
  else
    mret true.

Definition apply (data : Data) (active_features : option (gset string)) : M Data :=
  en ← attr enabled;
  if negb en then
    nm ← attr name;
    logger_debug "Feature '%s' is disabled; returning data unchanged" [ArgStr nm] ;;
    mret data
  else
    let active_features : gset string :=
      match active_features with
      | None => ∅
      | Some s => s
      end in
    avail ← is_available active_features;
    if negb avail then
      nm ← attr name;
      logger_debug
        "Feature '%s' is unavailable due to dependencies; returning data unchanged"
        [ArgStr nm] ;;
      mret data
    else
      t ← attr transformer;
      match t with
      | None =>
          nm ← attr name;
          logger_debug "Feature '%s' has no transformer; returning data unchanged"
            [ArgStr nm] ;;
          mret data
      | Some _ =>
          try_except_Exception
            (callee ← attr transformer;
             result ← call callee data;
             nm ← attr name;
             logger_info "Feature '%s' applied successfully" [ArgStr nm] ;;
             mret result)
            (λ e,
               nm ← attr name;
               logger_exception e
                 "Feature '%s' transformer raised an exception; returning original data"
                 [ArgStr nm] ;;
               mret data)
      end.

End ClosureModel.

Arguments Feature Code : clear implicits.
Arguments heap Data Code : clear implicits.




End Closures.

(** A callable that does not reach its feature is the function of its
    argument of the first model: [run_pure] calls it and leaves the object
    as it is, and [lift] carries the objects and heaps of the first model
    over. *)
Definition run_pure {Data : Type} (t : Data → outcome Data) (data : Data)
    (f : Closures.Feature (Data → outcome Data))
  : outcome Data * Closures.Feature (Data → outcome Data) :=
  (t data, f).

Definition lift_feature {Data : Type} (f : Feature Data)
  : Closures.Feature (Data → outcome Data) :=
  {| Closures.name := name f;
     Closures.enabled := enabled f;
     Closures.dependencies := dependencies f;
     Closures.transformer := transformer f;
     Closures.description := description f |}.

Definition lift {Data : Type} (h : heap Data)
  : Closures.heap Data (Data → outcome Data) :=
  {| Closures.self := lift_feature (self h); Closures.trace := trace h |}.

(** * Properties *)

(** Unfolds the method bodies and the monad, leaving sets and lists alone. *)
Ltac run :=
  cbv beta iota zeta delta
    [apply is_available enable disable repeat_call set_enabled
     logger_info logger_debug logger_exception emit attr call
     try_except_Exception raise mbind mret M_bind M_ret with_enabled
     self trace name enabled dependencies transformer description fst snd
     negb isinstance_Exception fresh with_dependencies].

Section FeatureProperties.

Context {Data : Type}.
Implicit Types (h : heap Data) (f : Feature Data) (data : Data).
Implicit Types (active : gset string) (deps : list string).

(** ** Sets of missing dependencies *)

Lemma truthy_false (s : gset string) : truthy s = false ↔ s = ∅.
Proof.
  unfold truthy. rewrite negb_false_iff, bool_decide_eq_true. done.
Qed.

Lemma truthy_true (s : gset string) : truthy s = true ↔ s ≠ ∅.
Proof.
  unfold truthy. rewrite negb_true_iff, bool_decide_eq_false. done.
Qed.

Lemma missing_empty deps active :
  list_to_set deps ∖ active = (∅ : gset string) ↔ ∀ d, d ∈ deps → d ∈ active.
Proof.
  split.
  - intros Hempty d Hd.
    destruct (decide (d ∈ active)) as [|Hout]; [done|].
    assert (d ∈ (list_to_set deps ∖ active : gset string)) as Hin
      by (apply elem_of_difference; split; [by apply elem_of_list_to_set | done]).
    rewrite Hempty in Hin. by apply not_elem_of_empty in Hin.
  - intros Hall. apply leibniz_equiv, elem_of_equiv_empty.
    intros d [Hd Hout]%elem_of_difference.
    apply Hout, Hall. by apply elem_of_list_to_set in Hd.
Qed.


(** ** Running [is_available] *)

Lemma is_available_run_true h active :
  (∀ d, d ∈ dependencies (self h) → d ∈ active) →
  is_available active h = (Return true, h).
Proof.
  intros Hall. destruct h as [[nm en deps t descr] tr]. run.
  apply missing_empty, truthy_false in Hall. cbn in Hall. by rewrite Hall.
Qed.

Lemma is_available_run_false h active :
  ¬ (∀ d, d ∈ dependencies (self h) → d ∈ active) →
  is_available active h =
    (Return false,
     {| self := self h;
        trace := trace h ++
          [Logged DEBUG "Feature '%s' missing dependencies: %s"
             [ArgStr (name (self h));
              ArgSet (list_to_set (dependencies (self h)) ∖ active)]] |}).
Proof.
  intros Hnot. destruct h as [[nm en deps t descr] tr]. run.
  destruct (truthy (list_to_set deps ∖ active)) eqn:Hmissing; [done|].
  exfalso. apply Hnot. by apply missing_empty, truthy_false.
Qed.

(** ** Running [apply], branch by branch *)

Lemma apply_run_disabled h data (active_features : option (gset string)) :
  enabled (self h) = false →
  apply data active_features h =
    (Return data,
     {| self := self h;
        trace := trace h ++
          [Logged DEBUG "Feature '%s' is disabled; returning data unchanged"
             [ArgStr (name (self h))]] |}).
Proof.
  intros Hen. destruct h as [[nm en deps t descr] tr]. cbn in Hen. subst en.
  by run.
Qed.

(** Past the [enabled] test, [apply] is what follows the call of
    [is_available] on the defaulted set. *)
Lemma apply_enabled h data (active_features : option (gset string)) :
  enabled (self h) = true →
  apply data active_features h =
    (avail ← is_available (default ∅ active_features);
     if negb avail then
       nm ← attr name;
       logger_debug
         "Feature '%s' is unavailable due to dependencies; returning data unchanged"
         [ArgStr nm] ;;
       mret data
     else
       t ← attr transformer;
       match t with
       | None =>
           nm ← attr name;
           logger_debug "Feature '%s' has no transformer; returning data unchanged"
             [ArgStr nm] ;;
           mret data
       | Some _ =>
           try_except_Exception
             (callee ← attr transformer;
              result ← call callee data;
              nm ← attr name;
              logger_info "Feature '%s' applied successfully" [ArgStr nm] ;;
              mret result)
             (λ e,
                nm ← attr name;
                logger_exception e
                  "Feature '%s' transformer raised an exception; returning original data"
                  [ArgStr nm] ;;
                mret data)
       end) h.
Proof.
  intros Hen. destruct h as [[nm en deps t descr] tr]. cbn in Hen. subst en.
  by destruct active_features.
Qed.

Lemma apply_run_unavailable h data (active_features : option (gset string)) :
  enabled (self h) = true →
  ¬ (∀ d, d ∈ dependencies (self h) → d ∈ default ∅ active_features) →
  apply data active_features h =
    (Return data,
     {| self := self h;
        trace := trace h ++
          [Logged DEBUG "Feature '%s' missing dependencies: %s"
             [ArgStr (name (self h));
              ArgSet (list_to_set (dependencies (self h)) ∖ default ∅ active_features)];
           Logged DEBUG
             "Feature '%s' is unavailable due to dependencies; returning data unchanged"
             [ArgStr (name (self h))]] |}).
Proof.
  intros Hen Hnot. rewrite apply_enabled by done.
  unfold mbind at 1, M_bind at 1. rewrite is_available_run_false by done.
  run. by rewrite <- app_assoc.
Qed.

Lemma apply_run_no_transformer h data (active_features : option (gset string)) :
  enabled (self h) = true →
  (∀ d, d ∈ dependencies (self h) → d ∈ default ∅ active_features) →
  transformer (self h) = None →
  apply data active_features h =
    (Return data,
     {| self := self h;
        trace := trace h ++
          [Logged DEBUG "Feature '%s' has no transformer; returning data unchanged"
             [ArgStr (name (self h))]] |}).
Proof.
  intros Hen Hall Hnone. rewrite apply_enabled by done.
  unfold mbind at 1, M_bind at 1. rewrite is_available_run_true by done.
  destruct h as [[nm en deps t descr] tr]. cbn in Hnone. subst t. by run.
Qed.

Lemma apply_run_success h data (active_features : option (gset string)) t result :
  enabled (self h) = true →
  (∀ d, d ∈ dependencies (self h) → d ∈ default ∅ active_features) →
  transformer (self h) = Some t →
  t data = Return result →
  apply data active_features h =
    (Return result,
     {| self := self h;
        trace := trace h ++
          [Invoked data;
           Logged INFO "Feature '%s' applied successfully" [ArgStr (name (self h))]] |}).
Proof.
  intros Hen Hall Hsome Hres. rewrite apply_enabled by done.
  unfold mbind at 1, M_bind at 1. rewrite is_available_run_true by done.
  destruct h as [[nm en deps t' descr] tr]. cbn in Hsome. subst t'.
  run. rewrite Hres. by rewrite <- app_assoc.
Qed.

Lemma apply_run_caught h data (active_features : option (gset string)) t e :
  enabled (self h) = true →
  (∀ d, d ∈ dependencies (self h) → d ∈ default ∅ active_features) →
  transformer (self h) = Some t →
  t data = Raise e →
  isinstance_Exception e = true →
  apply data active_features h =
    (Return data,
     {| self := self h;
        trace := trace h ++
          [Invoked data;
           LoggedException
             "Feature '%s' transformer raised an exception; returning original data"
             [ArgStr (name (self h))] e] |}).
Proof.
  intros Hen Hall Hsome Hres Hexc. rewrite apply_enabled by done.
  unfold mbind at 1, M_bind at 1. rewrite is_available_run_true by done.
  destruct h as [[nm en deps t' descr] tr]. cbn in Hsome. subst t'.
  run. rewrite Hres. destruct e; [|done]. by rewrite <- app_assoc.
Qed.

Lemma apply_run_propagated h data (active_features : option (gset string)) t e :
  enabled (self h) = true →
  (∀ d, d ∈ dependencies (self h) → d ∈ default ∅ active_features) →
  transformer (self h) = Some t →
  t data = Raise e →
  isinstance_Exception e = false →
  apply data active_features h =
    (Raise e, {| self := self h; trace := trace h ++ [Invoked data] |}).
Proof.
  intros Hen Hall Hsome Hres Hexc. rewrite apply_enabled by done.
  unfold mbind at 1, M_bind at 1. rewrite is_available_run_true by done.
  destruct h as [[nm en deps t' descr] tr]. cbn in Hsome. subst t'.
  run. rewrite Hres. by destruct e.
Qed.

(** Every run of [apply] ends in one of two ways: a value is returned, or
    the transformer raised an exception outside [Exception], which leaves
    [apply].  The object is the same afterwards in both. *)
Lemma apply_cases h data (active_features : option (gset string)) :
  (∃ v tr, apply data active_features h = (Return v, {| self := self h; trace := tr |}))
  ∨ (∃ t e tr,
       transformer (self h) = Some t ∧ t data = Raise e ∧
       isinstance_Exception e = false ∧
       apply data active_features h = (Raise e, {| self := self h; trace := tr |})).
Proof.
  destruct (enabled (self h)) eqn:Hen.
  2: { left. rewrite apply_run_disabled by done. eauto. }
  destruct (truthy (list_to_set (dependencies (self h)) ∖ default ∅ active_features))
    eqn:Hmissing.
  { left. rewrite apply_run_unavailable; [eauto | done |].
    intros Hall. apply missing_empty, truthy_false in Hall. congruence. }
  apply truthy_false in Hmissing. pose proof (proj1 (missing_empty _ _) Hmissing) as Hall.
  destruct (transformer (self h)) as [t|] eqn:Ht.
  2: { left. rewrite apply_run_no_transformer by done. eauto. }
  destruct (t data) as [result|e] eqn:Hres.
  { left. erewrite apply_run_success by done. eauto. }
  destruct (isinstance_Exception e) eqn:Hexc.
  - left. erewrite apply_run_caught by done. eauto.
  - right. exists t, e. erewrite apply_run_propagated by done. eauto 10.
Qed.

(** ** Running [enable] and [disable] *)

Lemma enable_run h :
  enable h =
    (Return (),
     {| self := with_enabled (self h) true;
        trace := trace h ++ [Logged INFO "Feature '%s' enabled" [ArgStr (name (self h))]] |}).
Proof. by destruct h as [[nm en deps t descr] tr]. Qed.

Lemma disable_run h :
  disable h =
    (Return (),
     {| self := with_enabled (self h) false;
        trace := trace h ++ [Logged INFO "Feature '%s' disabled" [ArgStr (name (self h))]] |}).
Proof. by destruct h as [[nm en deps t descr] tr]. Qed.

Lemma with_enabled_twice f b : with_enabled (with_enabled f b) b = with_enabled f b.
Proof. done. Qed.

Lemma repeat_call_S n (m : M unit) h :
  repeat_call (S n) m h =
    match m h with
    | (Return _, h') => repeat_call n m h'
    | (Raise e, h') => (Raise e, h')
    end.
Proof. done. Qed.

Lemma repeat_call_enable n h :
  ∃ tr, repeat_call (S n) enable h =
          (Return (), {| self := with_enabled (self h) true; trace := tr |}).
Proof.
  revert h. induction n as [|n IH]; intros h.
  - rewrite repeat_call_S, enable_run. cbn [repeat_call]. eauto.
  - rewrite repeat_call_S, enable_run.
    destruct (IH {| self := with_enabled (self h) true;
                    trace := trace h ++
                      [Logged INFO "Feature '%s' enabled" [ArgStr (name (self h))]] |})
      as [tr ->].
    eauto.
Qed.

Lemma repeat_call_disable n h :
  ∃ tr, repeat_call (S n) disable h =
          (Return (), {| self := with_enabled (self h) false; trace := tr |}).
Proof.
  revert h. induction n as [|n IH]; intros h.
  - rewrite repeat_call_S, disable_run. cbn [repeat_call]. eauto.
  - rewrite repeat_call_S, disable_run.
    destruct (IH {| self := with_enabled (self h) false;
                    trace := trace h ++
                      [Logged INFO "Feature '%s' disabled" [ArgStr (name (self h))]] |})
      as [tr ->].
    eauto.
Qed.

(** ** Lists of dependencies with the same elements *)



(** ** Transformer calls in a trace *)

Lemma invocations_app (tr tr' : list (event Data)) :
  invocations (tr ++ tr') = invocations tr ++ invocations tr'.
Proof.
  induction tr as [|ev tr IH]; [done|].
  destruct ev; cbn; by rewrite ?IH.
Qed.

End FeatureProperties.

(** * The specification's properties *)

(** C2. A disabled feature is the identity: whenever [enabled] is false,
    [apply] returns [data] itself, whatever the data and whatever the
    active set, given or omitted. *)
Theorem apply_disabled_identity {Data : Type} (h : heap Data) (data : Data)
    (active_features : option (gset string)) :
  enabled (self h) = false →
  fst (apply data active_features h) = Return data.
Proof. intros Hen. by rewrite apply_run_disabled. Qed.

Lemma apply_disabled_identity_witness :
  enabled (self (fresh upper_feature)) = false
  ∧ fst (apply (VStr "hello") None (fresh upper_feature)) = Return (VStr "hello")
  ∧ fst (apply (VStr "hello") (Some {["uppercase"]}) (fresh upper_feature))
    = Return (VStr "hello").
Proof.
  split; [reflexivity|].
  split; apply (apply_disabled_identity (fresh upper_feature)); reflexivity.
Defined.

(** C3. [is_available] returns a boolean that is [true] exactly when every
    name of [dependencies] is in the active set; with no dependencies it is
    [true]. *)
Theorem is_available_iff_dependencies_active {Data : Type} (h : heap Data)
    (active : gset string) :
  ∃ b : bool,
    fst (is_available active h) = Return b
    ∧ (b = true ↔ ∀ d, d ∈ dependencies (self h) → d ∈ active)
    ∧ (dependencies (self h) = [] → b = true).
Proof.
  destruct (truthy (list_to_set (dependencies (self h)) ∖ active)) eqn:Hmissing.
  - assert (¬ ∀ d, d ∈ dependencies (self h) → d ∈ active) as Hnot.
    { intros Hall. apply missing_empty, truthy_false in Hall. congruence. }
    exists false. rewrite is_available_run_false by done.
    split; [done|]. split; [split; [done | by intros Hall]|].
    intros Hnil. destruct Hnot. rewrite Hnil. by intros d ?%elem_of_nil.
  - apply truthy_false in Hmissing.
    pose proof (proj1 (missing_empty _ _) Hmissing) as Hall.
    exists true. by rewrite is_available_run_true.
Qed.

(** C4. An enabled feature whose dependencies are all active and whose
    transformer returns [result] on [data] gives exactly [result]; and the
    feature "uppercase" of the example, once enabled, turns "hello" into
    "HELLO". *)
Theorem apply_returns_transformer_result :
  (∀ (Data : Type) (h : heap Data) (data : Data) (active : gset string)
     (t : Data → outcome Data) (result : Data),
     enabled (self h) = true →
     (∀ d, d ∈ dependencies (self h) → d ∈ active) →
     transformer (self h) = Some t →
     t data = Return result →
     fst (apply data (Some active) h) = Return result)
  ∧ fst ((enable ;; apply (VStr "hello") None) (fresh upper_feature))
    = Return (VStr "HELLO").
Proof.
  split; [|reflexivity].
  intros Data h data active t result Hen Hall Ht Hres.
  by rewrite (apply_run_success h data (Some active) t result).
Qed.

Lemma apply_returns_transformer_result_witness :
  fst (apply (VStr "data") (Some {["uppercase"]})
         (fresh (requiring_uppercase (Some to_upper))))
  = Return (VStr "DATA").
Proof.
  apply (proj1 apply_returns_transformer_result value
           (fresh (requiring_uppercase (Some to_upper)))
           (VStr "data") {["uppercase"]} to_upper (VStr "DATA")).
  - reflexivity.
  - intros d Hd. apply list_elem_of_singleton in Hd. subst d.
    by apply elem_of_singleton.
  - reflexivity.
  - reflexivity.
Defined.

(** C5. An enabled feature with at least one dependency, given an active
    set that lacks one of them, returns [data] itself and does not call the
    transformer: the trace gains no invocation. *)
Theorem apply_unavailable_identity {Data : Type} (h : heap Data) (data : Data)
    (active : gset string) :
  enabled (self h) = true →
  dependencies (self h) ≠ [] →
  ¬ (∀ d, d ∈ dependencies (self h) → d ∈ active) →
  fst (apply data (Some active) h) = Return data
  ∧ invocations (trace (snd (apply data (Some active) h))) = invocations (trace h).
Proof.
  intros Hen _ Hnot. rewrite (apply_run_unavailable h data (Some active)) by done.
  split; [done|]. cbn [snd trace].
  rewrite invocations_app. cbn [invocations]. apply app_nil_r.
Qed.

Lemma apply_unavailable_identity_witness :
  fst (apply (VStr "data") (Some ∅) (fresh (requiring_uppercase (Some to_upper))))
  = Return (VStr "data")
  ∧ invocations (trace (snd (apply (VStr "data") (Some ∅)
                               (fresh (requiring_uppercase (Some to_upper)))))) = [].
Proof.
  apply (apply_unavailable_identity (fresh (requiring_uppercase (Some to_upper)))
           (VStr "data") ∅).
  - reflexivity.
  - discriminate.
  - intros Hall. apply (not_elem_of_empty (C:=gset string) "uppercase").
    apply Hall, list_elem_of_singleton. reflexivity.
Defined.

(** C6. An enabled feature without a transformer, all of whose dependencies
    are active, returns [data] itself. *)
Theorem apply_no_transformer_identity {Data : Type} (h : heap Data) (data : Data)
    (active : gset string) :
  enabled (self h) = true →
  transformer (self h) = None →
  (∀ d, d ∈ dependencies (self h) → d ∈ active) →
  fst (apply data (Some active) h) = Return data.
Proof.
  intros Hen Hnone Hall.
  by rewrite (apply_run_no_transformer h data (Some active)).
Qed.

Lemma apply_no_transformer_identity_witness :
  fst (apply (VInt 42) (Some {["uppercase"]}) (fresh (requiring_uppercase None)))
  = Return (VInt 42).
Proof.
  apply (apply_no_transformer_identity (fresh (requiring_uppercase None))
           (VInt 42) {["uppercase"]}).
  - reflexivity.
  - reflexivity.
  - intros d Hd. apply list_elem_of_singleton in Hd. subst d.
    by apply elem_of_singleton.
Defined.

(** C7. Leaving [active_features] out is the same as passing the empty set:
    the two calls give the same result and the same heap. *)
Theorem apply_omitted_is_empty_set {Data : Type} (h : heap Data) (data : Data) :
  apply data None h = apply data (Some ∅) h.
Proof. reflexivity. Qed.

(** ** The two models of the transformer *)

(** Unfolds the method bodies of the model with writing transformers. *)
Ltac run_closure :=
  cbv beta iota zeta delta
    [Closures.apply Closures.is_available Closures.enable Closures.disable
     Closures.set_enabled Closures.logger_info Closures.logger_debug
     Closures.logger_exception Closures.emit Closures.attr Closures.call
     Closures.try_except_Exception Closures.raise mbind mret
     Closures.M_bind Closures.M_ret Closures.with_enabled
     Closures.self Closures.trace Closures.name Closures.enabled
     Closures.dependencies Closures.transformer Closures.description
     fst snd negb isinstance_Exception run_pure lift lift_feature].

(** For transformers that do not reach their feature the two models are
    one: [apply] of the second, on the lifted heap, returns what [apply] of
    the first returns and leaves the lifted heap the first one leaves. *)
Lemma lift_apply {Data : Type} (h : heap Data) (data : Data)
    (active_features : option (gset string)) :
  Closures.apply run_pure data active_features (lift h)
  = (fst (apply data active_features h), lift (snd (apply data active_features h))).
Proof.
  destruct h as [[nm en deps t descr] tr].
  run_closure. run.
  destruct en; [|done].
  destruct (truthy _); [done|].
  destruct t as [t|]; [|done].
  destruct (t data) as [result|[cls msg|cls msg]]; done.
Qed.

Lemma lift_is_available {Data : Type} (h : heap Data) (active : gset string) :
  Closures.is_available active (lift h)
  = (fst (is_available active h), lift (snd (is_available active h))).
Proof.
  destruct h as [[nm en deps t descr] tr].
  run_closure. run. by destruct (truthy _).
Qed.

Module ClosuresProperties.

Import Closures.





End ClosuresProperties.

(** C9. [enable] and [disable] always succeed, and calling one of them
    [n ≥ 1] times leaves the same object as calling it once: [enabled] is
    [true] after [enable], [false] after [disable]. *)
Theorem enable_disable_idempotent {Data : Type} (h : heap Data) (n : nat) :
  (1 ≤ n)%nat →
  (∃ h1 hn : heap Data,
     enable h = (Return (), h1)
     ∧ repeat_call n enable h = (Return (), hn)
     ∧ self hn = self h1
     ∧ enabled (self hn) = true)
  ∧ (∃ h1 hn : heap Data,
       disable h = (Return (), h1)
       ∧ repeat_call n disable h = (Return (), hn)
       ∧ self hn = self h1
       ∧ enabled (self hn) = false).
Proof.
  intros Hn. destruct n as [|n]; [lia|]. split.
  - destruct (repeat_call_enable n h) as [tr Hrun].
    eexists _, _. split; [apply enable_run|]. split; [apply Hrun|]. done.
  - destruct (repeat_call_disable n h) as [tr Hrun].
    eexists _, _. split; [apply disable_run|]. split; [apply Hrun|]. done.
Qed.

Lemma enable_disable_idempotent_witness :
  (∃ h1 hn : heap value,
     enable (fresh upper_feature) = (Return (), h1)
     ∧ repeat_call 3 enable (fresh upper_feature) = (Return (), hn)
     ∧ self hn = self h1
     ∧ enabled (self hn) = true)
  ∧ (∃ h1 hn : heap value,
       disable (fresh upper_feature) = (Return (), h1)
       ∧ repeat_call 3 disable (fresh upper_feature) = (Return (), hn)
       ∧ self hn = self h1
       ∧ enabled (self hn) = false).
Proof. apply (enable_disable_idempotent (fresh upper_feature) 3). lia. Defined.



(** C1, as the code has it.  [apply] guards the transformer with
    [except Exception]: an exception that is an instance of [Exception] is
    caught and [data] is returned; an exception outside [Exception] leaves
    [apply]; and nothing else ever does, for any input. *)
Theorem apply_catches_Exception :
  ∀ (Data : Type) (h : heap Data) (data : Data),
    (∀ (active : gset string) (t : Data → outcome Data) (e : exn),
       enabled (self h) = true →
       (∀ d, d ∈ dependencies (self h) → d ∈ active) →
       transformer (self h) = Some t →
       t data = Raise e →
       (isinstance_Exception e = true →
        fst (apply data (Some active) h) = Return data)
       ∧ (isinstance_Exception e = false →
          fst (apply data (Some active) h) = Raise e))
    ∧ (∀ (active_features : option (gset string)) (e : exn),
         fst (apply data active_features h) = Raise e →
         isinstance_Exception e = false
         ∧ ∃ t, transformer (self h) = Some t ∧ t data = Raise e).
Proof.
  intros Data h data. split.
  - intros active t e Hen Hall Ht Hres. split; intros Hexc.
    + by rewrite (apply_run_caught h data (Some active) t e).
    + by rewrite (apply_run_propagated h data (Some active) t e).
  - intros active_features e Hraise.
    destruct (apply_cases h data active_features)
      as [(v & tr & Hrun)|(t & e' & tr & Ht & Hres & Hexc & Hrun)];
      rewrite Hrun in Hraise; cbn in Hraise; [done|].
    injection Hraise as <-. eauto.
Qed.

Lemma apply_catches_Exception_witness :
  fst (apply (VInt 42) (Some {["uppercase"]})
         (fresh (requiring_uppercase (Some always_fails))))
  = Return (VInt 42).
Proof.
  apply (proj1 (apply_catches_Exception value
                  (fresh (requiring_uppercase (Some always_fails))) (VInt 42))
           {["uppercase"]} always_fails (ExceptionInstance "ValueError" "boom")).
  - reflexivity.
  - intros d Hd. apply list_elem_of_singleton in Hd. subst d.
    by apply elem_of_singleton.
  - reflexivity.
  - reflexivity.
  - reflexivity.
Defined.

(** C1, as it is worded, fails: a transformer that calls [sys.exit(1)]
    raises [SystemExit], which is not an instance of [Exception]; the
    feature is enabled, its one dependency is active, and the exception
    leaves [apply] instead of [data] being returned. *)
Lemma apply_propagates_SystemExit :
  enabled (self (fresh (requiring_uppercase (Some exits)))) = true
  ∧ dependencies (self (fresh (requiring_uppercase (Some exits)))) = ["uppercase"]
  ∧ "uppercase" ∈ ({["uppercase"]} : gset string)
  ∧ transformer (self (fresh (requiring_uppercase (Some exits)))) = Some exits
  ∧ exits (VInt 42) = Raise (BaseExceptionInstance "SystemExit" "1")
  ∧ fst (apply (VInt 42) (Some {["uppercase"]}) (fresh (requiring_uppercase (Some exits))))
    = Raise (BaseExceptionInstance "SystemExit" "1")
  ∧ fst (apply (VInt 42) (Some {["uppercase"]}) (fresh (requiring_uppercase (Some exits))))
    ≠ Return (VInt 42).
Proof.
  split; [reflexivity|]. split; [reflexivity|].
  split; [by apply elem_of_singleton|].
  split; [reflexivity|]. split; [reflexivity|].
  split; [reflexivity|].
  vm_compute. discriminate.
Qed.

(** * Further properties of [Feature] *)

Section FeatureCallers.

Context {Data : Type}.
Implicit Types (h : heap Data) (f : Feature Data) (data : Data).
Implicit Types (active : gset string) (deps : list string).

Lemma dependencies_active_or_not deps active :
  (∀ d, d ∈ deps → d ∈ active) ∨ ¬ (∀ d, d ∈ deps → d ∈ active).
Proof.
  destruct (truthy (list_to_set deps ∖ active)) eqn:Hmissing.
  - right. intros Hall. apply missing_empty, truthy_false in Hall. congruence.
  - left. apply truthy_false in Hmissing. by apply missing_empty.
Qed.

Lemma is_available_true_iff h active :
  fst (is_available active h) = Return true
  ↔ ∀ d, d ∈ dependencies (self h) → d ∈ active.
Proof.
  destruct (dependencies_active_or_not (dependencies (self h)) active) as [Hall|Hnot].
  - by rewrite is_available_run_true.
  - rewrite is_available_run_false by done. cbn. split; [discriminate | done].
Qed.

Lemma exceptions_logged_app (tr tr' : list (event Data)) :
  exceptions_logged (tr ++ tr') = exceptions_logged tr ++ exceptions_logged tr'.
Proof.
  induction tr as [|ev tr IH]; [done|].
  destruct ev; cbn; by rewrite ?IH.
Qed.

Lemma with_enabled_overwrites f a b :
  with_enabled (with_enabled f a) b = with_enabled f b.
Proof. done. Qed.

Lemma toggle_run (b : bool) h :
  (if b then enable else disable) h =
    (Return (),
     {| self := with_enabled (self h) b;
        trace := trace h ++
          [Logged INFO (if b then "Feature '%s' enabled" else "Feature '%s' disabled")
             [ArgStr (name (self h))]] |}).
Proof. destruct b; [apply enable_run | apply disable_run]. Qed.

Lemma toggles_cons (b : bool) calls h :
  toggles (b :: calls) h =
    match (if b then enable else disable) h with
    | (Return _, h') => toggles calls h'
    | (Raise e, h') => (Raise e, h')
    end.
Proof. done. Qed.

(** After a run of calls the object is the one the calls' assignments
    leave, and the trace has one more record per call. *)
Lemma toggles_run (calls : list bool) h :
  ∃ tr, toggles calls h =
          (Return (), {| self := foldl with_enabled (self h) calls; trace := tr |})
        ∧ length tr = length (trace h) + length calls.
Proof.
  revert h. induction calls as [|b calls IH]; intros h.
  - exists (trace h). destruct h. cbn. split; [done | lia].
  - rewrite toggles_cons, toggle_run.
    destruct (IH {| self := with_enabled (self h) b;
                    trace := trace h ++
                      [Logged INFO
                         (if b then "Feature '%s' enabled" else "Feature '%s' disabled")
                         [ArgStr (name (self h))]] |})
      as (tr & -> & Hlen).
    exists tr. split; [done|]. rewrite Hlen. cbn [trace length].
    rewrite length_app. cbn. lia.
Qed.

Lemma foldl_with_enabled_last f (calls : list bool) (b : bool) :
  foldl with_enabled f (calls ++ [b]) = with_enabled f b.
Proof.
  rewrite foldl_app. cbn. revert f.
  induction calls as [|a calls IH]; intros f; [done|].
  cbn. rewrite IH. apply with_enabled_overwrites.
Qed.

End FeatureCallers.

(** X1. [apply] calls the transformer at most once, and on [data] only: it
    is called exactly when the feature is enabled, all its dependencies are
    in the (defaulted) active set and a transformer is set; in every other
    case no call is made. *)
Theorem apply_transformer_calls {Data : Type} (h : heap Data) (data : Data)
    (active_features : option (gset string)) :
  ((enabled (self h) = true
    ∧ (∀ d, d ∈ dependencies (self h) → d ∈ default ∅ active_features)
    ∧ is_Some (transformer (self h)))
   ∧ invocations (trace (snd (apply data active_features h)))
     = invocations (trace h) ++ [data])
  ∨ (¬ (enabled (self h) = true
        ∧ (∀ d, d ∈ dependencies (self h) → d ∈ default ∅ active_features)
        ∧ is_Some (transformer (self h)))
     ∧ invocations (trace (snd (apply data active_features h)))
       = invocations (trace h)).
Proof.
  destruct (enabled (self h)) eqn:Hen.
  2: { right. split; [by intros [? _]|].
       rewrite apply_run_disabled by done. cbn [snd trace].
       rewrite invocations_app. apply app_nil_r. }
  destruct (dependencies_active_or_not (dependencies (self h))
              (default ∅ active_features)) as [Hall|Hnot].
  2: { right. split; [by intros (_ & ? & _)|].
       rewrite apply_run_unavailable by done. cbn [snd trace].
       rewrite invocations_app. apply app_nil_r. }
  destruct (transformer (self h)) as [t|] eqn:Ht.
  2: { right. split; [by intros (_ & _ & [? ?])|].
       rewrite apply_run_no_transformer by done. cbn [snd trace].
       rewrite invocations_app. apply app_nil_r. }
  left. split; [by eauto|].
  destruct (t data) as [result|e] eqn:Hres.
  - erewrite apply_run_success by done. cbn [snd trace].
    by rewrite invocations_app.
  - destruct (isinstance_Exception e) eqn:Hexc.
    + erewrite apply_run_caught by done. cbn [snd trace].
      by rewrite invocations_app.
    + erewrite apply_run_propagated by done. cbn [snd trace].
      by rewrite invocations_app.
Qed.

(** X2. [apply] makes up no value: what it returns is [data] itself or
    the value the transformer returned on [data]. *)
Theorem apply_returns_data_or_result {Data : Type} (h : heap Data) (data v : Data)
    (active_features : option (gset string)) :
  fst (apply data active_features h) = Return v →
  v = data ∨ ∃ t, transformer (self h) = Some t ∧ t data = Return v.
Proof.
  intros Hret.
  destruct (enabled (self h)) eqn:Hen.
  2: { rewrite apply_run_disabled in Hret by done. left. by injection Hret. }
  destruct (dependencies_active_or_not (dependencies (self h))
              (default ∅ active_features)) as [Hall|Hnot].
  2: { rewrite apply_run_unavailable in Hret by done. left. by injection Hret. }
  destruct (transformer (self h)) as [t|] eqn:Ht.
  2: { rewrite apply_run_no_transformer in Hret by done. left. by injection Hret. }
  destruct (t data) as [result|e] eqn:Hres.
  - erewrite apply_run_success in Hret by done.
    right. exists t. split; [done|]. cbn in Hret. congruence.
  - destruct (isinstance_Exception e) eqn:Hexc.
    + erewrite apply_run_caught in Hret by done. left. by injection Hret.
    + erewrite apply_run_propagated in Hret by done. discriminate.
Qed.

Lemma apply_returns_data_or_result_witness :
  VStr "DATA" = VStr "data"
  ∨ ∃ t, transformer (self (fresh (requiring_uppercase (Some to_upper)))) = Some t
         ∧ t (VStr "data") = Return (VStr "DATA").
Proof.
  apply (apply_returns_data_or_result
           (fresh (requiring_uppercase (Some to_upper)))
           (VStr "data") (VStr "DATA") (Some {["uppercase"]})).
  reflexivity.
Defined.

(** X3. Availability grows with the active set and shrinks with the
    dependencies: a feature available under [active] stays available when
    names are added to the active set or dependencies are dropped. *)
Theorem is_available_monotone {Data : Type} (f : Feature Data) (deps : list string)
    (tr : list (event Data)) (active active' : gset string) :
  active ⊆ active' →
  (∀ d, d ∈ deps → d ∈ dependencies f) →
  fst (is_available active {| self := f; trace := tr |}) = Return true →
  fst (is_available active' {| self := with_dependencies f deps; trace := tr |})
  = Return true.
Proof.
  intros Hsub Hdeps Havail.
  pose proof (proj1 (is_available_true_iff _ _) Havail) as Hall.
  apply (proj2 (is_available_true_iff _ _)).
  intros d Hd. apply Hsub, Hall, Hdeps, Hd.
Qed.

(** A feature needing ["a"] and ["b"], available under the two names: it
    stays available when ["c"] joins the active set and ["b"] is no longer
    needed. *)
Lemma is_available_monotone_witness :
  fst (is_available {["a"; "b"; "c"]}
         (fresh (with_dependencies
                   (with_dependencies (requiring_uppercase (Some to_upper)) ["a"; "b"])
                   ["a"])))
  = Return true.
Proof.
  apply (is_available_monotone
           (with_dependencies (requiring_uppercase (Some to_upper)) ["a"; "b"])
           ["a"] [] {["a"; "b"]} {["a"; "b"; "c"]}).
  - intros d. rewrite !elem_of_union. tauto.
  - intros d. cbn. rewrite !elem_of_cons, elem_of_nil. tauto.
  - reflexivity.
Defined.

(** X4. The last call wins: after any run of [enable()] and [disable()]
    calls, [enabled] is what the last call set, the other fields are the
    original ones, no call fails, and each call logged one record. *)
Theorem last_toggle_wins {Data : Type} (h : heap Data) (calls : list bool) (b : bool) :
  ∃ tr,
    toggles (calls ++ [b]) h =
      (Return (), {| self := with_enabled (self h) b; trace := tr |})
    ∧ length tr = length (trace h) + length calls + 1.
Proof.
  destruct (toggles_run (calls ++ [b]) h) as (tr & Hrun & Hlen).
  exists tr. rewrite Hrun, foldl_with_enabled_last. split; [done|].
  rewrite Hlen, length_app. cbn. lia.
Qed.



(** X6. After [disable()], [apply] is the identity for every feature,
    whatever its state before: [data] comes back, the transformer is not
    called and the feature stays disabled. *)
Theorem disable_then_apply_identity {Data : Type} (h : heap Data) (data : Data)
    (active_features : option (gset string)) :
  ∃ h',
    (disable ;; apply data active_features) h = (Return data, h')
    ∧ invocations (trace h') = invocations (trace h)
    ∧ self h' = with_enabled (self h) false.
Proof.
  unfold mbind, M_bind. rewrite disable_run.
  rewrite apply_run_disabled by done.
  eexists. split; [done|]. split; [|done].
  cbn [trace self]. rewrite !invocations_app. cbn. by rewrite !app_nil_r.
Qed.

(** X7. [apply] hands an exception to [logger.exception] exactly when it
    caught one: the feature is enabled and available, and the transformer
    raised an instance of [Exception] on [data]; that exception is then
    logged once. In every other case no exception is logged. *)
Theorem apply_logs_caught_exception_only {Data : Type} (h : heap Data) (data : Data)
    (active_features : option (gset string)) :
  (∃ t e,
     enabled (self h) = true
     ∧ (∀ d, d ∈ dependencies (self h) → d ∈ default ∅ active_features)
     ∧ transformer (self h) = Some t
     ∧ t data = Raise e
     ∧ isinstance_Exception e = true
     ∧ exceptions_logged (trace (snd (apply data active_features h)))
       = exceptions_logged (trace h) ++ [e])
  ∨ (exceptions_logged (trace (snd (apply data active_features h)))
     = exceptions_logged (trace h)
     ∧ ¬ ∃ t e,
           enabled (self h) = true
           ∧ (∀ d, d ∈ dependencies (self h) → d ∈ default ∅ active_features)
           ∧ transformer (self h) = Some t
           ∧ t data = Raise e
           ∧ isinstance_Exception e = true).
Proof.
  destruct (enabled (self h)) eqn:Hen.
  2: { right. split; [|by intros (? & ? & ? & _)].
       rewrite apply_run_disabled by done. cbn [snd trace].
       rewrite exceptions_logged_app. apply app_nil_r. }
  destruct (dependencies_active_or_not (dependencies (self h))
              (default ∅ active_features)) as [Hall|Hnot].
  2: { right. split; [|by intros (? & ? & _ & ? & _)].
       rewrite apply_run_unavailable by done. cbn [snd trace].
       rewrite exceptions_logged_app. apply app_nil_r. }
  destruct (transformer (self h)) as [t|] eqn:Ht.
  2: { right. split; [|by intros (? & ? & _ & _ & ? & _)].
       rewrite apply_run_no_transformer by done. cbn [snd trace].
       rewrite exceptions_logged_app. apply app_nil_r. }
  destruct (t data) as [result|e] eqn:Hres.
  { right. split.
    - erewrite apply_run_success by done. cbn [snd trace].
      rewrite exceptions_logged_app. apply app_nil_r.
    - intros (t' & e & _ & _ & [= <-] & Hraise & _). congruence. }
  destruct (isinstance_Exception e) eqn:Hexc.
  - left. exists t, e. erewrite apply_run_caught by done. cbn [snd trace].
    rewrite exceptions_logged_app. done.
  - right. split.
    + erewrite apply_run_propagated by done. cbn [snd trace].
      rewrite exceptions_logged_app. apply app_nil_r.
    + intros (t' & e' & _ & _ & [= <-] & Hraise & Hexc'). congruence.
Qed.


(** * Properties of the command-line script *)

Module MyscriptProperties.

Import Myscript.

Lemma world_eta (w : world) : {| stdout := stdout w; log := log w |} = w.
Proof. by destruct w. Qed.

(** ** The greeting loop *)

Lemma for_range_print (n : nat) (text : string) (w : world) :
  for_range n (print text) w =
    (Return (), {| stdout := stdout w ++ replicate n text; log := log w |}).
Proof.
  revert w. induction n as [|n IH]; intros w.
  - cbn. by rewrite app_nil_r, world_eta.
  - change (for_range (S n) (print text) w)
      with (for_range n (print text) {| stdout := stdout w ++ [text]; log := log w |}).
    rewrite IH. cbn [stdout log]. by rewrite <- app_assoc.
Qed.

(** ** Lines without their newlines *)

Lemma rstrip_newline_cons (c : ascii) (rest : string) :
  rstrip_newline (String c rest) =
    match rstrip_newline rest with
    | EmptyString => if Ascii.eqb c "010" then EmptyString else String c EmptyString
    | kept => String c kept
    end.
Proof. done. Qed.

Lemma rstrip_newline_no_trailing (line : string) :
  ends_with_newline (rstrip_newline line) = false.
Proof.
  induction line as [|c rest IH]; [done|].
  rewrite rstrip_newline_cons.
  destruct (rstrip_newline rest) as [|c' kept] eqn:Hrest.
  - destruct (Ascii.eqb c "010") eqn:Hc; [done|]. cbn. apply Hc.
  - apply IH.
Qed.

Lemma rstrip_newline_restores (line : string) :
  ∃ n, line = rstrip_newline line +:+ newlines n.
Proof.
  induction line as [|c rest (n & IH)]; [by exists 0%nat|].
  rewrite rstrip_newline_cons.
  destruct (rstrip_newline rest) as [|c' kept] eqn:Hrest.
  - destruct (Ascii.eqb c "010") eqn:Hc.
    + apply Ascii.eqb_eq in Hc. subst c.
      exists (S n). rewrite IH at 1. reflexivity.
    + exists n. rewrite IH at 1. reflexivity.
  - exists n. rewrite IH at 1. reflexivity.
Qed.

(** ** Reading the lines of a file *)

Lemma read_lines_run (rest : list string) :
  ∀ (i max_lines : Z) (failure : option exn) (w : world),
    read_lines i max_lines rest failure w =
      (if decide (length rest ≤ Z.to_nat (max_lines - i))%nat
       then match failure with Some e => Raise e | None => Return () end
       else Return (),
       {| stdout := stdout w
                    ++ (rstrip_newline <$> take (Z.to_nat (max_lines - i)) rest);
          log := log w |}).
Proof.
  induction rest as [|line rest IH]; intros i max_lines failure w.
  - rewrite take_nil, fmap_nil, app_nil_r, world_eta.
    rewrite decide_True by (cbn; lia). by destruct failure.
  - cbn [read_lines]. destruct (Z.geb_spec i max_lines) as [Hge|Hlt].
    + replace (Z.to_nat (max_lines - i)) with 0%nat by lia.
      rewrite decide_False by (cbn; lia).
      by rewrite take_0, fmap_nil, app_nil_r, world_eta.
    + replace (Z.to_nat (max_lines - i)) with (S (Z.to_nat (max_lines - (i + 1))))
        by lia.
      change ((print (rstrip_newline line) ;;
               read_lines (i + 1) max_lines rest failure) w)
        with (read_lines (i + 1) max_lines rest failure
                {| stdout := stdout w ++ [rstrip_newline line]; log := log w |}).
      rewrite IH. cbn [stdout log length].
      rewrite firstn_cons, fmap_cons, <- app_assoc. cbn [app].
      destruct (decide (length rest ≤ Z.to_nat (max_lines - (i + 1)))%nat);
        [rewrite decide_True by lia | rewrite decide_False by lia]; done.
Qed.

(** What [read_file] does at a path that exists. *)
Lemma read_file_run (fs : string → path_status) (path : string) (max_lines : option Z)
    (f : file) (w : world) :
  fs path = Present f →
  read_file fs path max_lines w =
    let w' := {| stdout := stdout w
                   ++ (rstrip_newline
                         <$> take (Z.to_nat (default 10%Z max_lines)) (lines f));
                 log := log w |} in
    if decide (length (lines f) ≤ Z.to_nat (default 10%Z max_lines))%nat
    then match failure f with
         | None => (Return (), w')
         | Some e =>
             if isinstance_Exception e
             then (Return (),
                   {| stdout := stdout w';
                      log := log w ++ [LogException "Failed reading file: %s" e] |})
             else (Raise e, w')
         end
    else (Return (), w').
Proof.
  intros Hpath. unfold read_file. rewrite Hpath.
  unfold try_except_Exception. rewrite read_lines_run, Z.sub_0_r. cbn zeta.
  destruct (decide _); [|done].
  destruct (failure f) as [e|]; [|done].
  by destruct (isinstance_Exception e).
Qed.

(** X9. [greet] always succeeds and prints the greeting [max(1, repeat)]
    times: [repeat] times when that is at least 1, and once when [repeat]
    is 0 or negative; it prints nothing else. *)
Theorem greet_prints_at_least_once (name : string) (repeat : option Z) (w : world) :
  ∃ n : nat,
    greet name repeat w =
      (Return (),
       {| stdout := stdout w ++ replicate n ("Hello, " +:+ name +:+ "!");
          log := log w |})
    ∧ (1 ≤ n)%nat
    ∧ (1 ≤ default 1 repeat → Z.of_nat n = default 1 repeat)%Z
    ∧ (default 1 repeat ≤ 1 → n = 1%nat)%Z.
Proof.
  exists (Z.to_nat (Z.max 1 (default 1%Z repeat))).
  split; [apply for_range_print|]. lia.
Qed.

(** X10. Whatever the path, [read_file] prints at most [max_lines] lines,
    none of which ends in a newline.  An exception leaves it in two cases
    only: [Path.exists()] raised it, before anything is printed or logged,
    or reading raised one that is not an instance of [Exception].  At a
    path that does not exist it prints nothing, logs one error naming the
    path and returns. *)
Theorem read_file_bounded (fs : string → path_status) (path : string)
    (max_lines : option Z) (w : world) :
  ∃ printed : list string,
    stdout (snd (read_file fs path max_lines w)) = stdout w ++ printed
    ∧ (length printed ≤ Z.to_nat (default 10%Z max_lines))%nat
    ∧ Forall (λ text, ends_with_newline text = false) printed
    ∧ (∀ e, fst (read_file fs path max_lines w) = Raise e →
            fs path = ExistsRaises e
            ∨ (isinstance_Exception e = false
               ∧ ∃ f, fs path = Present f ∧ failure f = Some e))
    ∧ (∀ e, fs path = ExistsRaises e →
            read_file fs path max_lines w = (Raise e, w))
    ∧ (fs path = Missing →
       printed = []
       ∧ fst (read_file fs path max_lines w) = Return ()
       ∧ log (snd (read_file fs path max_lines w))
         = log w ++ [LogError "File not found: %s" path]).
Proof.
  destruct (fs path) as [e0| |f] eqn:Hpath.
  - exists []. unfold read_file. rewrite Hpath. cbn.
    rewrite app_nil_r.
    split; [done|]. split; [lia|]. split; [by apply Forall_nil|].
    split; [intros e [= <-]; by left|]. split; [by intros e [= <-]|]. done.
  - exists []. unfold read_file. rewrite Hpath. cbn.
    rewrite app_nil_r.
    split; [done|]. split; [lia|]. split; [by apply Forall_nil|].
    split; [by intros e [=]|]. split; [by intros e [=]|]. done.
  - exists (rstrip_newline <$> take (Z.to_nat (default 10%Z max_lines)) (lines f)).
    rewrite (read_file_run fs path max_lines f w Hpath). cbn zeta.
    split; [|split; [|split; [|split; [|split; [done | done]]]]].
    + destruct (decide _); [|done].
      destruct (failure f) as [e|]; [|done].
      by destruct (isinstance_Exception e).
    + rewrite length_fmap, length_take. lia.
    + apply Forall_fmap, Forall_forall. intros line _.
      apply rstrip_newline_no_trailing.
    + intros e. destruct (decide _); [|done].
      destruct (failure f) as [e'|] eqn:Hfail; [|done].
      destruct (isinstance_Exception e') eqn:Hexc; [done|].
      cbn. intros [= <-]. right. split; [done|]. by exists f.
Qed.

(** X11. For a file that is read without failure, or that yields more
    than [max_lines] lines, [read_file] prints its first [max_lines] lines
    (all of them if there are fewer; none if [max_lines] is 0 or negative),
    each without the newlines at its end, logs nothing and returns. *)
Theorem read_file_prints_first_lines (fs : string → path_status) (path : string)
    (max_lines : option Z) (f : file) (w : world) :
  fs path = Present f →
  failure f = None ∨ (Z.to_nat (default 10%Z max_lines) < length (lines f))%nat →
  read_file fs path max_lines w =
    (Return (),
     {| stdout := stdout w
                  ++ (rstrip_newline
                        <$> take (Z.to_nat (default 10%Z max_lines)) (lines f));
        log := log w |}).
Proof.
  intros Hpath Hok. rewrite (read_file_run fs path max_lines f w Hpath). cbn zeta.
  destruct (decide _) as [Hle|]; [|done].
  destruct Hok as [->|Hlt]; [done | lia].
Qed.

(** The first two of the three lines of [notes.txt], which is read
    without failure. *)
Lemma read_file_prints_first_lines_witness :
  read_file notes_and_logs "notes.txt" (Some 2%Z) {| stdout := []; log := [] |}
  = (Return (), {| stdout := ["one"; "two"]; log := [] |}).
Proof.
  apply (read_file_prints_first_lines notes_and_logs "notes.txt" (Some 2%Z)
           {| lines := ["one" +:+ String "010" EmptyString;
                        "two" +:+ String "010" EmptyString;
                        "three"];
              failure := None |}
           {| stdout := []; log := [] |}).
  - reflexivity.
  - by left.
Defined.

(** X12. When the iteration raises an instance of [Exception] after at
    most [max_lines] lines came out of it, [read_file] still returns: the
    lines that came out before the failure stay printed and the exception
    is logged. *)
Theorem read_file_logs_failure (fs : string → path_status) (path : string)
    (max_lines : option Z) (f : file) (e : exn) (w : world) :
  fs path = Present f →
  failure f = Some e →
  isinstance_Exception e = true →
  (length (lines f) ≤ Z.to_nat (default 10%Z max_lines))%nat →
  read_file fs path max_lines w =
    (Return (),
     {| stdout := stdout w ++ (rstrip_newline <$> lines f);
        log := log w ++ [LogException "Failed reading file: %s" e] |}).
Proof.
  intros Hpath Hfail Hexc Hle.
  rewrite (read_file_run fs path max_lines f w Hpath). cbn zeta.
  rewrite decide_True, Hfail, Hexc by done. cbn [stdout].
  by rewrite take_ge.
Qed.

(** The directory [logs]: it exists, [open] raises [IsADirectoryError],
    nothing is printed and the error is logged. *)
Lemma read_file_logs_failure_witness :
  read_file notes_and_logs "logs" None {| stdout := []; log := [] |}
  = (Return (),
     {| stdout := [];
        log := [LogException "Failed reading file: %s"
                  (ExceptionInstance "IsADirectoryError"
                     "[Errno 21] Is a directory: 'logs'")] |}).
Proof.
  apply (read_file_logs_failure notes_and_logs "logs" None
           {| lines := [];
              failure := Some (ExceptionInstance "IsADirectoryError"
                                 "[Errno 21] Is a directory: 'logs'") |}
           (ExceptionInstance "IsADirectoryError" "[Errno 21] Is a directory: 'logs'")
           {| stdout := []; log := [] |}).
  - reflexivity.
  - reflexivity.
  - reflexivity.
  - cbn. lia.
Defined.

(** X13. What [read_file] prints for a line is the line without the
    newline characters at its end, and nothing else is taken away: the
    printed text does not end in a newline, and the line is the printed
    text followed by newlines only. *)
Theorem printed_line_is_line_without_newlines (line : string) :
  ends_with_newline (rstrip_newline line) = false
  ∧ ∃ n, line = rstrip_newline line +:+ newlines n.
Proof.
  split; [apply rstrip_newline_no_trailing | apply rstrip_newline_restores].
Qed.

End MyscriptProperties.

(** X14. A feature without a transformer never changes data: in every
    state, enabled or not, available or not, [apply] returns [data]. *)
Theorem apply_without_transformer_identity {Data : Type} (h : heap Data) (data : Data)
    (active_features : option (gset string)) :
  transformer (self h) = None →
  fst (apply data active_features h) = Return data.
Proof.
  intros Hnone.
  destruct (enabled (self h)) eqn:Hen.
  2: { by rewrite apply_run_disabled. }
  destruct (dependencies_active_or_not (dependencies (self h))
              (default ∅ active_features)) as [Hall|Hnot].
  - by rewrite apply_run_no_transformer.
  - by rewrite apply_run_unavailable.
Qed.

Lemma apply_without_transformer_identity_witness :
  fst (apply (VInt 42) None (fresh (requiring_uppercase None))) = Return (VInt 42).
Proof.
  apply (apply_without_transformer_identity (fresh (requiring_uppercase None))
           (VInt 42) None).
  reflexivity.
Defined.
